(** * express-ts-setup: response envelope, error value, async adapter, routes

    A shallow embedding of the TypeScript sources

      - src/utils/apiError.ts      (class ApiError)
      - src/utils/apiResponse.ts   (class ApiResponse)
      - src/utils/asyncHandler.ts  (asyncHandler)
      - src/controllers/user.controller.ts (getUsers, getUserById,
        createUser, loginUser)
      - src/routes/user.route.ts and the mount point in src/app.ts
      - src/db/index.ts and src/index.ts (start-up)

    together with the properties the specification states about them and
    further properties read off the code. *)

From Stdlib Require Import List ZArith QArith String Ascii Bool Lia.
Import ListNotations.

#[local] Set Warnings "-register-all".

Local Open Scope string_scope.
Local Open Scope Z_scope.
Local Open Scope list_scope.

(** ** JavaScript numbers

    TypeScript's [number] is an IEEE double.  The only operation the sources
    apply to a number is the comparison [statusCode < 400], which is exact,
    so a number is modelled by its mathematical value: a rational for a
    finite double, or one of the three special values. *)
Module Js.

Inductive number : Type :=
| Finite (q : Q)
| NaN
| Infinity
| NegInfinity.

Definition of_Z (z : Z) : number := Finite (inject_Z z).

(** [a < b] on rationals, as a boolean. *)
Definition Qltb (a b : Q) : bool :=
  (Qnum a * Zpos (Qden b) <? Qnum b * Zpos (Qden a))%Z.

(** The [<] operator: a comparison with [NaN] on either side is [false]. *)
Definition lt (a b : number) : bool :=
  match a, b with
  | NaN, _ | _, NaN => false
  | Finite x, Finite y => Qltb x y
  | Finite _, Infinity => true
  | Finite _, NegInfinity => false
  | Infinity, _ => false
  | NegInfinity, NegInfinity => false
  | NegInfinity, _ => true
  end.

(** Truthiness of a string: only the empty string is falsy. *)
Definition truthy_string (s : string) : bool :=
  match s with
  | EmptyString => false
  | String _ _ => true
  end.

End Js.

(** ** src/utils/apiResponse.ts *)
Module ApiResponse.

Record t (T : Type) : Type := mk {
  statusCode : Js.number;
  data : T;
  message : string;
  success : bool
}.
Arguments mk {T}.
Arguments statusCode {T}.
Arguments data {T}.
Arguments message {T}.
Arguments success {T}.

(** [constructor(statusCode: number, data: T, message: string = "Success")].
    An omitted (undefined) third argument is [None]. *)
Definition new {T : Type} (statusCode : Js.number) (data : T)
    (message : option string) : t T :=
  let message := match message with Some m => m | None => "Success" end in
  {| statusCode := statusCode;
     data := data;
     message := message;
     success := Js.lt statusCode (Js.of_Z 400) |}.

End ApiResponse.

(** ** src/utils/apiError.ts *)
Module ApiError.

(** The [stack] property inherited from [Error]: either the string handed
    to the constructor, or the trace captured by
    [Error.captureStackTrace(this, this.constructor)]. *)
Inductive stack_trace : Type :=
| Supplied (s : string)
| Captured.

Record t : Type := mk {
  statusCode : Js.number;
  success : bool;
  message : string;
  stack : stack_trace
}.

(** [constructor(statusCode: number,
                 message: string = "Something went wrong",
                 stack: string = "")].
    The field initialiser [success = false] runs right after [super(message)];
    the constructor body never assigns [success]. *)
Definition new (statusCode : Js.number) (message stack : option string) : t :=
  let message :=
    match message with Some m => m | None => "Something went wrong" end in
  let stack := match stack with Some s => s | None => "" end in
  {| statusCode := statusCode;
     success := false;
     message := message;
     stack := if Js.truthy_string stack then Supplied stack else Captured |}.

(** Later operations on an instance.  At run time an instance is an
    ordinary object: [readonly] is checked by the compiler and erased from
    the emitted code, so each of the four properties can be assigned, the
    two declared [readonly] through a cast or from untyped code. *)
Inductive operation : Type :=
| SetStatusCode (n : Js.number)
| SetSuccess (b : bool)
| SetMessage (m : string)
| SetStack (s : string).

Definition apply (e : t) (op : operation) : t :=
  match op with
  | SetStatusCode n =>
      {| statusCode := n; success := success e;
         message := message e; stack := stack e |}
  | SetSuccess b =>
      {| statusCode := statusCode e; success := b;
         message := message e; stack := stack e |}
  | SetMessage m =>
      {| statusCode := statusCode e; success := success e;
         message := m; stack := stack e |}
  | SetStack s =>
      {| statusCode := statusCode e; success := success e;
         message := message e; stack := Supplied s |}
  end.




End ApiError.

(** ** The parts of Express and of the JavaScript run time the sources use *)
Module Express.

(** Values that flow through the handlers: response bodies, rejection
    reasons, arguments of [next]. *)
Inductive value : Type :=
| VUndefined
| VNumber (n : Z)
| VString (s : string)
| VBoolean (b : bool)
| VArray (items : list value)
| VObject (fields : list (string * value))
| VError (message : string)
| VResponse (res : nat).

(** The methods a route of the sources can be registered for or asked
    with.  [HEAD] and [OPTIONS], which the framework answers through routes
    and middleware of its own, are not represented. *)
Inductive Method : Type := GET | POST | PUT | PATCH | DELETE.

Definition Method_eqb (a b : Method) : bool :=
  match a, b with
  | GET, GET | POST, POST | PUT, PUT | PATCH, PATCH | DELETE, DELETE => true
  | _, _ => false
  end.

(** The request object: [path] holds the segments of the URL path. *)
Record Request : Type := mkRequest {
  method : Method;
  path : list string;
  params : list (string * string);
  body : value;
  query : list (string * value)
}.

(** The response object and the continuation are mutable objects owned by
    the framework; a handler holds references to them. *)
Definition Response : Type := nat.
Definition NextFunction : Type := nat.

(** What a handler can do to its arguments. *)
Inductive op : Type :=
| Status (res : Response) (code : Z)      (* res.status(code) *)
| Send (res : Response) (payload : value) (* res.send(payload) *)
| Next (next : NextFunction) (arg : value). (* next(arg) *)

(** *** Behaviour of user code

    The asynchronous part of a computation: what it does, turn after turn
    of the event loop, until its promise settles (if it ever does). *)
Inductive deferred (E : Type) : Type :=
| Resolve (v : value)
| Reject (e : value)
| Perform (x : E) (k : deferred E)
| Await (k : deferred E)
| Never.
Arguments Resolve {E}.
Arguments Reject {E}.
Arguments Perform {E}.
Arguments Await {E}.
Arguments Never {E}.

(** One synchronous call of a function: the effects it performs while it is
    on the stack, and how it leaves the stack. *)
Inductive activation (E : Type) : Type :=
| Do (x : E) (k : activation E)
| Throw (e : value)
| ReturnPromise (p : deferred E)
| ReturnValue (v : value).
Arguments Do {E}.
Arguments Throw {E}.
Arguments ReturnPromise {E}.
Arguments ReturnValue {E}.

(** An [async] function: the body runs on the caller's stack up to its first
    [await]; the call never throws, it returns a promise that the rest of the
    body settles.  In the body, [Resolve v] is [return v] and [Reject e] is
    [throw e]. *)
Fixpoint async {E : Type} (body : deferred E) : activation E :=
  match body with
  | Perform x k => Do x (async k)
  | Await k => ReturnPromise k
  | Resolve v => ReturnPromise (Resolve v)
  | Reject e => ReturnPromise (Reject e)
  | Never => ReturnPromise Never
  end.

Inductive settlement : Type :=
| Fulfilled (v : value)
| RejectedWith (e : value)
| Unsettled.

Fixpoint events {E : Type} (d : deferred E) : list E :=
  match d with
  | Perform x k => x :: events k
  | Await k => events k
  | Resolve _ | Reject _ | Never => []
  end.

Fixpoint settles {E : Type} (d : deferred E) : settlement :=
  match d with
  | Perform _ k | Await k => settles k
  | Resolve v => Fulfilled v
  | Reject e => RejectedWith e
  | Never => Unsettled
  end.

Fixpoint relabel {E F : Type} (f : E -> F) (d : deferred E) : deferred F :=
  match d with
  | Perform x k => Perform (f x) (relabel f k)
  | Await k => Await (relabel f k)
  | Resolve v => Resolve v
  | Reject e => Reject e
  | Never => Never
  end.

(** How one call of a function ends. *)
Inductive ending : Type :=
| Threw (e : value)
| GavePromise (s : settlement)
| GaveValue (v : value).

Fixpoint sync_ops {E : Type} (a : activation E) : list E :=
  match a with
  | Do x k => x :: sync_ops k
  | _ => []
  end.

Fixpoint later_ops {E : Type} (a : activation E) : list E :=
  match a with
  | Do _ k => later_ops k
  | ReturnPromise p => events p
  | _ => []
  end.

Fixpoint ending_of {E : Type} (a : activation E) : ending :=
  match a with
  | Do _ k => ending_of k
  | Throw e => Threw e
  | ReturnPromise p => GavePromise (settles p)
  | ReturnValue v => GaveValue v
  end.

(** *** The observable world *)

(** Who performed an effect: the handler handed to [asyncHandler], or the
    handler [asyncHandler] returned. *)
Inductive origin : Type := Wrapped | Adapter.

Inductive event : Type :=
| Invoke (req : Request) (res : Response) (next : NextFunction)
| Effect (who : origin) (o : op).

(** A promise is an index into the table of promises created so far. *)
Definition promise : Type := nat.

Inductive cell : Type :=
| Running (script : deferred event)
| Caught (src : promise) (onRejected : value -> activation event).

Record world : Type := mkWorld {
  log : list event;
  table : list cell
}.

Definition empty_world : world := {| log := []; table := [] |}.

(** What a function call hands back: a plain value or a promise. *)
Inductive returned : Type :=
| Plain (v : value)
| Promised (p : promise).

(** Synchronous code running in the world: it ends with a result or with a
    thrown exception. *)
Inductive result (A : Type) : Type :=
| Ok (a : A)
| Exn (e : value).
Arguments Ok {A}.
Arguments Exn {A}.

Definition M (A : Type) : Type := world -> world * result A.

Definition ret {A : Type} (a : A) : M A := fun w => (w, Ok a).

Definition bind {A B : Type} (m : M A) (f : A -> M B) : M B :=
  fun w =>
    match m w with
    | (w', Ok a) => f a w'
    | (w', Exn e) => (w', Exn e)
    end.

Definition throw {A : Type} (e : value) : M A := fun w => (w, Exn e).

Definition emit (ev : event) : M unit :=
  fun w => ({| log := log w ++ [ev]; table := table w |}, Ok tt).

Definition alloc (c : cell) : M promise :=
  fun w => ({| log := log w; table := table w ++ [c] |},
            Ok (List.length (table w))).

Notation "x <- c1 ;; c2" := (bind c1 (fun x => c2))
  (at level 61, c1 at next level, right associativity).
Notation "c1 ;;; c2" := (bind c1 (fun _ => c2))
  (at level 61, right associativity).

(** Running one activation of user code [who] in the world: its effects are
    logged as they happen; a returned promise is entered in the table, where
    the rest of its script waits for the event loop. *)
Fixpoint exec (who : origin) (a : activation op) : M returned :=
  match a with
  | Do o k => emit (Effect who o) ;;; exec who k
  | Throw e => throw e
  | ReturnPromise p =>
      id <- alloc (Running (relabel (Effect who) p)) ;; ret (Promised id)
  | ReturnValue v => ret (Plain v)
  end.

(** [Promise.resolve(x)]: a promise is handed back as it is, any other value
    becomes a promise fulfilled with it. *)
Definition Promise_resolve (x : returned) : M promise :=
  match x with
  | Promised p => ret p
  | Plain v => alloc (Running (Resolve v))
  end.

(** [p.catch(onRejected)]: registers the reaction and hands back the derived
    promise.  The reaction is a function the run time calls in a later turn,
    when (and if) [p] is rejected. *)
Definition Promise_catch (p : promise)
    (onRejected : value -> activation event) : M promise :=
  alloc (Caught p onRejected).

(** *** The event loop

    Once the synchronous code has left the stack the run time settles the
    promises.  A promise is created after the promise it reacts to, so the
    table is settled front to back: [done] holds the settlements of the
    cells already passed. *)
Definition settle_cell (done : list settlement) (c : cell)
    : list event * settlement :=
  match c with
  | Running d => (events d, settles d)
  | Caught src onRejected =>
      match nth_error done src with
      | Some (RejectedWith e) =>
          let a := onRejected e in
          (sync_ops a ++ later_ops a,
           match ending_of a with
           | Threw e' => RejectedWith e'
           | GavePromise s => s
           | GaveValue v => Fulfilled v
           end)
      | Some (Fulfilled v) => ([], Fulfilled v)
      | Some Unsettled | None => ([], Unsettled)
      end
  end.

Fixpoint settle_all (cells : list cell) (done : list settlement)
    : list event * list settlement :=
  match cells with
  | [] => ([], done)
  | c :: rest =>
      let '(evs, s) := settle_cell done c in
      let '(evs', done') := settle_all rest (done ++ [s]) in
      (evs ++ evs', done')
  end.

(** A rejected promise nobody reacts to is reported by the run time as an
    unhandled rejection. *)
Definition has_reaction (cells : list cell) (p : promise) : bool :=
  existsb (fun c =>
    match c with
    | Caught src _ => Nat.eqb src p
    | Running _ => false
    end) cells.

Fixpoint unhandled_from (cells : list cell) (i : nat)
    (done : list settlement) : list value :=
  match done with
  | [] => []
  | s :: rest =>
      match s with
      | RejectedWith e =>
          if has_reaction cells i then unhandled_from cells (S i) rest
          else e :: unhandled_from cells (S i) rest
      | _ => unhandled_from cells (S i) rest
      end
  end.

(** What the framework sees of one call of a handler. *)
Record outcome : Type := mkOutcome {
  trace : list event;              (* every effect, in order *)
  completion : result value;       (* how the call itself ended *)
  settled : list settlement;       (* the fate of every promise created *)
  unhandled : list value           (* rejections nobody handled *)
}.

Definition run (m : M value) : outcome :=
  let '(w, r) := m empty_world in
  let '(evs, done) := settle_all (table w) [] in
  {| trace := log w ++ evs;
     completion := r;
     settled := done;
     unhandled := unhandled_from (table w) 0 done |}.

(** *** Reading a trace *)

Definition invocations (t : list event)
    : list (Request * Response * NextFunction) :=
  flat_map (fun ev =>
    match ev with
    | Invoke req res next => [(req, res, next)]
    | Effect _ _ => []
    end) t.

Definition origin_eqb (a b : origin) : bool :=
  match a, b with
  | Wrapped, Wrapped | Adapter, Adapter => true
  | _, _ => false
  end.

(** The effects one party performed, in order. *)
Definition effects_of (who : origin) (t : list event) : list op :=
  flat_map (fun ev =>
    match ev with
    | Effect w o => if origin_eqb w who then [o] else []
    | Invoke _ _ _ => []
    end) t.

Definition is_next (o : op) : bool :=
  match o with Next _ _ => true | _ => false end.

Definition is_write (o : op) : bool :=
  match o with Status _ _ | Send _ _ => true | Next _ _ => false end.

(** Calls of the continuation by one party, and by anybody. *)
Definition next_calls (who : origin) (t : list event) : list op :=
  filter is_next (effects_of who t).

Definition all_next_calls (t : list event) : list op :=
  next_calls Wrapped t ++ next_calls Adapter t.

Definition response_writes (who : origin) (t : list event) : list op :=
  filter is_write (effects_of who t).

(** *** The response object

    [statusCode] starts at 200 (Node's default).  [res.status(c)] assigns it;
    [res.send(b)] puts the current status and [b] on the wire, once. *)
Record ResponseState : Type := mkResponseState {
  statusCode : Z;
  sent : option (Z * value)
}.

Definition fresh_response : ResponseState :=
  {| statusCode := 200; sent := None |}.

Definition apply_op (res : Response) (st : ResponseState) (o : op)
    : ResponseState :=
  match o with
  | Status r c =>
      if Nat.eqb r res then {| statusCode := c; sent := sent st |} else st
  | Send r b =>
      if Nat.eqb r res then
        match sent st with
        | None => {| statusCode := statusCode st;
                     sent := Some (statusCode st, b) |}
        | Some _ => st
        end
      else st
  | Next _ _ => st
  end.

Definition apply_event (res : Response) (st : ResponseState) (ev : event)
    : ResponseState :=
  match ev with
  | Effect _ o => apply_op res st o
  | Invoke _ _ _ => st
  end.

Definition response_after (res : Response) (st : ResponseState)
    (t : list event) : ResponseState :=
  fold_left (apply_event res) t st.

(** *** Handlers and routing *)

(** A handler registered with the framework: synchronous code that may leave
    promises behind. *)
Definition RequestHandler : Type :=
  Request -> Response -> NextFunction -> M value.

Inductive segment : Type :=
| Lit (s : string)
| Param (name : string).

(** The non-empty pieces of a path between slashes. *)
Fixpoint split_path_from (cur : string) (s : string) : list string :=
  match s with
  | EmptyString =>
      match cur with EmptyString => [] | _ => [cur] end
  | String c rest =>
      if Ascii.eqb c "/"%char then
        match cur with
        | EmptyString => split_path_from EmptyString rest
        | _ => cur :: split_path_from EmptyString rest
        end
      else split_path_from (cur ++ String c EmptyString)%string rest
  end.

Definition split_path (s : string) : list string :=
  split_path_from EmptyString s.

(** A route pattern: a piece that starts with a colon names a parameter. *)
Definition pattern (s : string) : list segment :=
  map (fun piece =>
    match piece with
    | String ":"%char name => Param name
    | _ => Lit piece
    end) (split_path s).

(** A parameter matches one non-empty piece; a literal matches itself.
    Pieces are compared as they are written: the framework's percent-decoding
    and its case-insensitive comparison of literals are not represented, so
    the matcher speaks of paths spelled as the routes spell them. *)
Fixpoint match_path (pat : list segment) (p : list string)
    : option (list (string * string)) :=
  match pat, p with
  | [], [] => Some []
  | Lit s :: pat', x :: p' =>
      if String.eqb s x then match_path pat' p' else None
  | Param name :: pat', x :: p' =>
      match x with
      | EmptyString => None
      | _ => option_map (cons (name, x)) (match_path pat' p')
      end
  | _, _ => None
  end.

Record Route : Type := mkRoute {
  route_method : Method;
  route_path : list segment;
  route_handler : RequestHandler
}.

Definition Router : Type := list Route.

Definition route (m : Method) (p : string) (h : RequestHandler) : Route :=
  {| route_method := m; route_path := pattern p; route_handler := h |}.

(** First match wins; the matched parameters become [req.params]. *)
Fixpoint lookup (r : Router) (m : Method) (p : list string)
    : option (list (string * string) * RequestHandler) :=
  match r with
  | [] => None
  | rt :: rest =>
      if Method_eqb (route_method rt) m then
        match match_path (route_path rt) p with
        | Some ps => Some (ps, route_handler rt)
        | None => lookup rest m p
        end
      else lookup rest m p
  end.

(** [app.use(prefix, router)]: the router sees the path below [prefix]. *)
Fixpoint strip_prefix (prefix p : list string) : option (list string) :=
  match prefix, p with
  | [], rest => Some rest
  | a :: prefix', b :: p' =>
      if String.eqb a b then strip_prefix prefix' p' else None
  | _ :: _, [] => None
  end.

Record Mount : Type := mkMount {
  mount_prefix : list string;
  mount_router : Router
}.

Definition use (prefix : string) (r : Router) : Mount :=
  {| mount_prefix := split_path prefix; mount_router := r |}.

Definition with_params (req : Request) (ps : list (string * string))
    : Request :=
  {| method := method req; path := path req; params := ps;
     body := body req; query := query req |}.

(** One request through the application: [None] when no route matches and
    the request falls through to the framework's not-found behaviour. *)
Fixpoint dispatch (app : list Mount) (req : Request) (res : Response)
    (next : NextFunction) : option outcome :=
  match app with
  | [] => None
  | mt :: rest =>
      match strip_prefix (mount_prefix mt) (path req) with
      | Some below =>
          match lookup (mount_router mt) (method req) below with
          | Some (ps, h) => Some (run (h (with_params req ps) res next))
          | None => dispatch rest req res next
          end
      | None => dispatch rest req res next
      end
  end.

(** What went on the wire for [res] during an outcome, starting from the
    fresh response the framework creates for a request. *)
Definition responded (res : Response) (o : outcome) : option (Z * value) :=
  sent (response_after res fresh_response (trace o)).

End Express.

Import Express.

(** ** src/utils/asyncHandler.ts *)

(** [type AsyncRequestHandler = (req, res, next) => Promise<void | Response>]:
    user code, given by what one call of it does. *)
Definition AsyncRequestHandler : Type :=
  Request -> Response -> NextFunction -> activation op.

(** The call [requestHandler(req, res, next)]. *)
Definition call (requestHandler : AsyncRequestHandler) (req : Request)
    (res : Response) (next : NextFunction) : M returned :=
  emit (Invoke req res next) ;;; exec Wrapped (requestHandler req res next).

(** The arrow function [(err) => next(err)], called by the run time.  The
    continuation is the framework's: the call is recorded, and it is taken to
    return.  (Were it to throw, the promise [catch] hands back would reject;
    the statements about calls of [next] and about how the adapted call ends
    do not depend on it, those about unhandled rejections do.) *)
Definition forward (next : NextFunction) (err : value) : activation event :=
  Do (Effect Adapter (Next next err)) (ReturnValue VUndefined).

(** [return (req, res, next) => {
       Promise.resolve(requestHandler(req, res, next))
              .catch((err) => next(err));
     }] *)
Definition asyncHandler (requestHandler : AsyncRequestHandler)
    : RequestHandler :=
  fun req res next =>
    r <- call requestHandler req res next ;;
    p <- Promise_resolve r ;;
    _ <- Promise_catch p (fun err => forward next err) ;;
    ret VUndefined.

(** ** src/controllers/user.controller.ts *)

Definition getUsers : RequestHandler :=
  asyncHandler (fun req res _ =>
    async (Perform (Send res (VArray []))
          (Resolve VUndefined))).

Definition getUserById : RequestHandler :=
  asyncHandler (fun req res _ =>
    async (Perform (Send res (VObject []))
          (Resolve (VResponse res)))).

Definition createUser : RequestHandler :=
  asyncHandler (fun req res next =>
    async (Perform (Status res 201)
          (Perform (Send res (VObject [("id", VNumber 1);
                                       ("username", VString "anson");
                                       ("email", VString "anson@ansonthedev.com")]))
          (Resolve (VResponse res))))).

Definition loginUser : RequestHandler :=
  asyncHandler (fun req res next =>
    async (Resolve VUndefined)).

(** ** src/routes/user.route.ts *)

Definition router : Router :=
  [ route GET "/" getUsers;
    route GET "/:id" getUserById;
    route POST "/" createUser ].

(** ** src/app.ts: [app.use("/api/v1/users", userRouter)]

    The three middlewares installed before the router ([cors],
    [express.json], [express.urlencoded]) are library code.  A [Request] is
    the request as the router receives it, its body parsed: a request one of
    them answers or refuses never gets that far. *)

Definition app : list Mount :=
  [ use "/api/v1/users" router ].

(** ** Vocabulary of the statements *)

(** Everything the wrapped handler does in one call, on the stack and
    later. *)
Definition wrapped_ops (a : activation op) : list op :=
  sync_ops a ++ later_ops a.

(** The promise [Promise.resolve] ends up with when the call returns. *)
Fixpoint resolved_promise {E : Type} (a : activation E) : deferred E :=
  match a with
  | Do _ k => resolved_promise k
  | ReturnPromise p => p
  | ReturnValue v => Resolve v
  | Throw _ => Never
  end.

(** What the reaction registered by [asyncHandler] does once the promise it
    watches has the settlement [s]. *)
Definition reaction (next : NextFunction) (s : settlement) : list event :=
  match s with
  | RejectedWith e => [Effect Adapter (Next next e)]
  | Fulfilled _ | Unsettled => []
  end.

(** The promise [catch] hands back. *)
Definition caught (s : settlement) : settlement :=
  match s with
  | RejectedWith _ => Fulfilled VUndefined
  | Fulfilled v => Fulfilled v
  | Unsettled => Unsettled
  end.

(** A failure inside one call of a wrapped handler: an exception thrown
    while it is on the stack, or the rejection of the promise it returned. *)
Definition failure (a : activation op) : option value :=
  match ending_of a with
  | Threw e => Some e
  | GavePromise (RejectedWith e) => Some e
  | GavePromise _ | GaveValue _ => None
  end.

(** The record [createUser] sends. *)
Definition anson : value :=
  VObject [("id", VNumber 1);
           ("username", VString "anson");
           ("email", VString "anson@ansonthedev.com")].

(** Sample inputs. *)
Definition sample_request : Request :=
  {| method := GET; path := split_path "/api/v1/users/42";
     params := []; body := VUndefined; query := [] |}.

Definition boom : value := VError "boom".


(** [async (req, res, next) => { throw new Error("boom") }]. *)
Definition async_throws : AsyncRequestHandler :=
  fun _ _ _ => async (Reject boom).

(** [async (req, res, next) => { res.send("partial"); await tick;
                                 throw new Error("boom") }]. *)
Definition sends_then_fails : AsyncRequestHandler :=
  fun _ res _ =>
    async (Perform (Send res (VString "partial")) (Await (Reject boom))).


(** [async (req, res, next) => { next(); }]. *)
Definition passes_on : AsyncRequestHandler :=
  fun _ _ next => async (Perform (Next next VUndefined) (Resolve VUndefined)).

(** ** Reactions on a settled promise

    [p.then(f)] and [p.catch(g)] seen from the promise they derive: what the
    callback does when it runs, and how the derived promise settles. *)

Definition settled_by {E : Type} (a : activation E) : settlement :=
  match ending_of a with
  | Threw e => RejectedWith e
  | GavePromise s => s
  | GaveValue v => Fulfilled v
  end.

Definition then_reaction {E : Type} (s : settlement)
    (onFulfilled : value -> activation E) : list E * settlement :=
  match s with
  | Fulfilled v =>
      let a := onFulfilled v in (sync_ops a ++ later_ops a, settled_by a)
  | RejectedWith e => ([], RejectedWith e)
  | Unsettled => ([], Unsettled)
  end.

Definition catch_reaction {E : Type} (s : settlement)
    (onRejected : value -> activation E) : list E * settlement :=
  match s with
  | RejectedWith e =>
      let a := onRejected e in (sync_ops a ++ later_ops a, settled_by a)
  | Fulfilled v => ([], Fulfilled v)
  | Unsettled => ([], Unsettled)
  end.

(** ** src/db/index.ts and src/index.ts *)
Module Bootstrap.

(** [process.env] once [dotenv.config] has run: the variable the file reads,
    absent ([None]) or a string. *)
Record Env : Type := mkEnv {
  PORT : option string
}.

(** The value of [process.env.PORT || 8000]. *)
Inductive port : Type :=
| FromEnv (s : string)
| Fallback (n : Z).

Definition listen_port (env : Env) : port :=
  match PORT env with
  | Some s => if Js.truthy_string s then FromEnv s else Fallback 8000
  | None => Fallback 8000
  end.

(** The template literal [`Server: http://localhost:${process.env.PORT}`]:
    an absent variable is spelled [undefined]. *)
Definition banner (env : Env) : string :=
  ("Server: http://localhost:"
     ++ match PORT env with Some s => s | None => "undefined" end)%string.

Inductive effect : Type :=
| DotenvConfig (path : string)     (* dotenv.config({path}) *)
| OnError                          (* app.on("error", ...) *)
| Listen (p : port)                (* app.listen(p, callback) *)
| ConsoleLog (args : list value)   (* console.log(...args) *)
| Exit (code : Z).                 (* process.exit(code) *)

(** [const connectDB = async () => { }], called. *)
Definition connectDB : activation effect :=
  async (Resolve VUndefined).

(** What [app.listen] does: it binds and later runs its callback, or it
    throws on the spot. *)
Inductive listen_outcome : Type :=
| Listening
| ListenThrows (e : value).

(** The callback handed to [then]. *)
Definition on_connected (env : Env) (l : listen_outcome)
    : activation effect :=
  Do OnError
    (Do (Listen (listen_port env))
      match l with
      | Listening => ReturnValue VUndefined
      | ListenThrows e => Throw e
      end).

(** The callback handed to [app.listen], run once the server is bound. *)
Definition on_listening (env : Env) : list effect :=
  [ConsoleLog [VString (banner env)]].

(** The callback handed to [catch]. *)
Definition on_failure (err : value) : activation effect :=
  Do (ConsoleLog [VString "ERR: "; err])
    (Do (Exit 1) (ReturnValue VUndefined)).

Record boot : Type := mkBoot {
  effects : list effect;      (* in order *)
  uncaught : option value;    (* an exception that left the module *)
  chain : settlement          (* the promise [catch] hands back *)
}.

(** The module body, for any [connectDB]:
    [dotenv.config(...); connectDB().then(...).catch(...)].
    An exception thrown by the call itself leaves the module; so does the
    [TypeError] of calling [then] on a value that is no promise. *)
Definition start (connect : activation effect) (env : Env)
    (l : listen_outcome) : boot :=
  match ending_of connect with
  | Threw e =>
      {| effects := DotenvConfig "./.env" :: sync_ops connect;
         uncaught := Some e;
         chain := Unsettled |}
  | GaveValue _ =>
      {| effects := DotenvConfig "./.env" :: sync_ops connect;
         uncaught := Some (VError "connectDB(...).then is not a function");
         chain := Unsettled |}
  | GavePromise s0 =>
      let '(evs1, s1) := then_reaction s0 (fun _ => on_connected env l) in
      let '(evs2, s2) := catch_reaction s1 on_failure in
      let bound :=
        match s0, l with
        | Fulfilled _, Listening => on_listening env
        | _, _ => []
        end in
      {| effects := DotenvConfig "./.env"
                      :: (sync_ops connect ++ later_ops connect)
                      ++ evs1 ++ evs2 ++ bound;
         uncaught := None;
         chain := s2 |}
  end.

(** src/index.ts as it stands. *)
Definition main (env : Env) (l : listen_outcome) : boot :=
  start connectDB env l.

Definition is_exit (x : effect) : bool :=
  match x with Exit _ => true | _ => false end.

Definition is_listen (x : effect) : bool :=
  match x with Listen _ => true | _ => false end.

(** A [connectDB] that fails after logging, as a sample. *)
Definition failing_connect : activation effect :=
  async (Perform (ConsoleLog [VString "connecting"])
                 (Await (Reject (VError "no database")))).

End Bootstrap.

(** A second response object, as a sample. *)
Definition other_response : Response := 5%nat.

(** * Properties *)

(** ** The run time *)

Lemma events_relabel {E F : Type} (f : E -> F) (d : deferred E) :
  events (relabel f d) = map f (events d).
Proof.
  induction d as [v | e | x k IH | k IH | ]; simpl; try reflexivity.
  - now rewrite IH.
  - exact IH.
Qed.

Lemma settles_relabel {E F : Type} (f : E -> F) (d : deferred E) :
  settles (relabel f d) = settles d.
Proof.
  induction d as [v | e | x k IH | k IH | ]; simpl; auto.
Qed.

(** An [async] function never throws on the caller's stack: whatever its body
    does, the call hands back a promise, settled the way the body ends. *)
Lemma async_ending {E : Type} (body : deferred E) :
  ending_of (async body) = GavePromise (settles body).
Proof.
  induction body as [v | e | x k IH | k IH | ]; simpl; auto.
Qed.

Lemma async_ops {E : Type} (body : deferred E) :
  sync_ops (async body) ++ later_ops (async body) = events body.
Proof.
  induction body as [v | e | x k IH | k IH | ]; simpl; auto.
  now rewrite IH.
Qed.

Lemma resolved_promise_settles {E : Type} (a : activation E) :
  settles (resolved_promise a) =
  match ending_of a with
  | Threw _ => Unsettled
  | GavePromise s => s
  | GaveValue v => Fulfilled v
  end.
Proof.
  induction a as [x k IH | e | p | v]; simpl; auto.
Qed.

Lemma resolved_promise_events {E : Type} (a : activation E) :
  events (resolved_promise a) = later_ops a.
Proof.
  induction a as [x k IH | e | p | v]; simpl; auto.
Qed.

(** ** The adapter, step by step *)

(** The body of the adapted handler from any world on: effects of the
    wrapped call are appended to the log; unless the call throws, exactly two
    promises are created, the wrapped handler's and the one [catch] derives
    from it. *)
Lemma adapter_body (next : NextFunction) (a : activation op) (w : world) :
  (r <- exec Wrapped a ;;
   p <- Promise_resolve r ;;
   _ <- Promise_catch p (fun err => forward next err) ;;
   ret VUndefined) w =
  match ending_of a with
  | Threw e =>
      ({| log := log w ++ map (Effect Wrapped) (sync_ops a);
          table := table w |}, Exn e)
  | GavePromise _ | GaveValue _ =>
      ({| log := log w ++ map (Effect Wrapped) (sync_ops a);
          table := table w ++
                   [Running (relabel (Effect Wrapped) (resolved_promise a));
                    Caught (List.length (table w))
                           (fun err => forward next err)] |},
       Ok VUndefined)
  end.
Proof.
  revert w.
  induction a as [x k IH | e | p | v]; intros w.
  - change ((r <- exec Wrapped (Do x k) ;;
             p <- Promise_resolve r ;;
             _ <- Promise_catch p (fun err => forward next err) ;;
             ret VUndefined) w)
      with ((r <- exec Wrapped k ;;
             p <- Promise_resolve r ;;
             _ <- Promise_catch p (fun err => forward next err) ;;
             ret VUndefined)
              {| log := log w ++ [Effect Wrapped x]; table := table w |}).
    rewrite IH. simpl.
    destruct (ending_of k); rewrite <- app_assoc; reflexivity.
  - simpl. unfold bind, throw. simpl. now rewrite app_nil_r; destruct w.
  - unfold bind, alloc, ret, Promise_catch, alloc; simpl.
    rewrite app_nil_r, <- app_assoc. reflexivity.
  - unfold bind, alloc, ret, Promise_catch, alloc; simpl.
    rewrite app_nil_r, <- app_assoc. reflexivity.
Qed.

(** One call of an adapted handler, start to quiescence. *)
Lemma run_asyncHandler (h : AsyncRequestHandler) (req : Request)
    (res : Response) (next : NextFunction) :
  run (asyncHandler h req res next) =
  match ending_of (h req res next) with
  | Threw e =>
      {| trace := Invoke req res next
                    :: map (Effect Wrapped) (sync_ops (h req res next));
         completion := Exn e;
         settled := [];
         unhandled := [] |}
  | GavePromise _ | GaveValue _ =>
      let s := settles (resolved_promise (h req res next)) in
      {| trace := Invoke req res next
                    :: map (Effect Wrapped) (wrapped_ops (h req res next))
                    ++ reaction next s;
         completion := Ok VUndefined;
         settled := [s; caught s];
         unhandled := [] |}
  end.
Proof.
  unfold run.
  change (asyncHandler h req res next empty_world)
    with ((r <- exec Wrapped (h req res next) ;;
           p <- Promise_resolve r ;;
           _ <- Promise_catch p (fun err => forward next err) ;;
           ret VUndefined)
            {| log := [Invoke req res next]; table := [] |}).
  rewrite adapter_body.
  unfold wrapped_ops.
  rewrite map_app, <- resolved_promise_events.
  destruct (ending_of (h req res next)) as [e | s0 | v]; simpl.
  - now rewrite app_nil_r.
  - rewrite events_relabel, settles_relabel.
    destruct (settles (resolved_promise (h req res next))); simpl;
      rewrite ?app_nil_r, <- ?app_assoc; reflexivity.
  - rewrite events_relabel, settles_relabel.
    destruct (settles (resolved_promise (h req res next))); simpl;
      rewrite ?app_nil_r, <- ?app_assoc; reflexivity.
Qed.

(** ** Reading the trace of an adapted call *)

Lemma effects_of_app (who : origin) (t u : list event) :
  effects_of who (t ++ u) = effects_of who t ++ effects_of who u.
Proof. unfold effects_of. apply flat_map_app. Qed.

Lemma effects_of_same (who : origin) (l : list op) :
  effects_of who (map (Effect who) l) = l.
Proof.
  induction l as [| o l IH]; simpl; [reflexivity |].
  destruct who; simpl; now rewrite IH.
Qed.

Lemma effects_of_other (who other : origin) (l : list op) :
  origin_eqb other who = false ->
  effects_of who (map (Effect other) l) = [].
Proof.
  intros Hne. induction l as [| o l IH]; simpl; [reflexivity |].
  now rewrite Hne.
Qed.

Lemma invocations_app (t u : list event) :
  invocations (t ++ u) = invocations t ++ invocations u.
Proof. unfold invocations. apply flat_map_app. Qed.

Lemma invocations_effects (who : origin) (l : list op) :
  invocations (map (Effect who) l) = [].
Proof. induction l as [| o l IH]; simpl; auto. Qed.

Lemma invocations_reaction (next : NextFunction) (s : settlement) :
  invocations (reaction next s) = [].
Proof. destruct s; reflexivity. Qed.

(** The adapter's own effects in a call that returned: the reaction, and
    nothing else. *)
Lemma adapter_effects (req : Request) (res : Response) (next : NextFunction)
    (l : list op) (s : settlement) :
  effects_of Adapter
    (Invoke req res next :: map (Effect Wrapped) l ++ reaction next s) =
  effects_of Adapter (reaction next s).
Proof.
  change (Invoke req res next :: map (Effect Wrapped) l ++ reaction next s)
    with ([Invoke req res next] ++ map (Effect Wrapped) l ++ reaction next s).
  rewrite !effects_of_app, effects_of_other by reflexivity.
  reflexivity.
Qed.

Lemma wrapped_effects (req : Request) (res : Response) (next : NextFunction)
    (l : list op) (s : settlement) :
  effects_of Wrapped
    (Invoke req res next :: map (Effect Wrapped) l ++ reaction next s) = l.
Proof.
  change (Invoke req res next :: map (Effect Wrapped) l ++ reaction next s)
    with ([Invoke req res next] ++ map (Effect Wrapped) l ++ reaction next s).
  rewrite !effects_of_app, effects_of_same.
  destruct s; simpl; now rewrite ?app_nil_r.
Qed.

(** A call that hands back a promise: the outcome in terms of that promise's
    settlement. *)
Lemma run_asyncHandler_promise (h : AsyncRequestHandler) (req : Request)
    (res : Response) (next : NextFunction) (s : settlement) :
  ending_of (h req res next) = GavePromise s ->
  run (asyncHandler h req res next) =
  {| trace := Invoke req res next
                :: map (Effect Wrapped) (wrapped_ops (h req res next))
                ++ reaction next s;
     completion := Ok VUndefined;
     settled := [s; caught s];
     unhandled := [] |}.
Proof.
  intros Hend.
  rewrite run_asyncHandler, resolved_promise_settles, Hend.
  reflexivity.
Qed.


Lemma later_ops_threw {E : Type} (a : activation E) (e : value) :
  ending_of a = Threw e -> later_ops a = [].
Proof.
  induction a as [x k IH | e' | p | v]; simpl; auto; discriminate.
Qed.

(** ** asyncHandler *)

(** C1.  When the promise returned by the wrapped handler rejects with [E],
    the handler returned by [asyncHandler] calls [next] exactly once, with
    exactly [E], and writes nothing to the response itself: its only effect
    is that one call, which comes after everything the wrapped handler
    did. *)
Theorem asyncHandler_rejection_calls_next_once
    (h : AsyncRequestHandler) (req : Request) (res : Response)
    (next : NextFunction) (E : value) :
  ending_of (h req res next) = GavePromise (RejectedWith E) ->
  next_calls Adapter (trace (run (asyncHandler h req res next)))
    = [Next next E] /\
  response_writes Adapter (trace (run (asyncHandler h req res next))) = [] /\
  effects_of Adapter (trace (run (asyncHandler h req res next)))
    = [Next next E] /\
  trace (run (asyncHandler h req res next))
    = Invoke req res next
        :: map (Effect Wrapped) (wrapped_ops (h req res next))
        ++ [Effect Adapter (Next next E)].
Proof.
  intros Hend.
  rewrite (run_asyncHandler_promise h req res next _ Hend).
  unfold next_calls, response_writes. cbn [trace].
  rewrite adapter_effects. simpl. auto.
Qed.

Lemma asyncHandler_rejection_calls_next_once_witness :
  ending_of (sends_then_fails sample_request 1%nat 2%nat)
    = GavePromise (RejectedWith boom) /\
  next_calls Adapter
    (trace (run (asyncHandler sends_then_fails sample_request 1%nat 2%nat)))
    = [Next 2%nat boom].
Proof.
  split.
  - reflexivity.
  - exact (proj1 (asyncHandler_rejection_calls_next_once
                    sends_then_fails sample_request 1%nat 2%nat boom
                    eq_refl)).
Defined.

(** C2.  When the promise returned by the wrapped handler resolves, the
    handler returned by [asyncHandler] never calls [next]: it performs no
    effect at all, and any call of [next] in the trace was made by the
    wrapped handler. *)
Theorem asyncHandler_resolution_never_calls_next
    (h : AsyncRequestHandler) (req : Request) (res : Response)
    (next : NextFunction) (v : value) :
  ending_of (h req res next) = GavePromise (Fulfilled v) ->
  next_calls Adapter (trace (run (asyncHandler h req res next))) = [] /\
  effects_of Adapter (trace (run (asyncHandler h req res next))) = [] /\
  all_next_calls (trace (run (asyncHandler h req res next)))
    = filter is_next (wrapped_ops (h req res next)).
Proof.
  intros Hend.
  rewrite (run_asyncHandler_promise h req res next _ Hend).
  unfold all_next_calls, next_calls. cbn [trace].
  rewrite adapter_effects, wrapped_effects. simpl.
  now rewrite app_nil_r.
Qed.

Lemma asyncHandler_resolution_never_calls_next_witness :
  ending_of (passes_on sample_request 1%nat 2%nat)
    = GavePromise (Fulfilled VUndefined) /\
  next_calls Adapter
    (trace (run (asyncHandler passes_on sample_request 1%nat 2%nat))) = [].
Proof.
  split.
  - reflexivity.
  - exact (proj1 (asyncHandler_resolution_never_calls_next
                    passes_on sample_request 1%nat 2%nat VUndefined
                    eq_refl)).
Defined.


(** For an [async] function a failure is always a rejection of the
    returned promise: the call itself never throws. *)
Lemma async_failures_are_rejections (body : deferred op) (e : value) :
  (failure (async body) = Some e <-> settles body = RejectedWith e) /\
  ending_of (async body) <> Threw e.
Proof.
  unfold failure. rewrite async_ending. split; [| discriminate].
  destruct (settles body); split; intros H; congruence.
Qed.



(** C10.  Each call of the handler returned by [asyncHandler] calls the
    wrapped handler exactly once, with the request, the response and the
    continuation it was itself called with: the trace holds one invocation,
    with those arguments; the wrapped handler's effects for those arguments
    appear in it once; and the wrapped handler is consulted at no other
    arguments. *)
Theorem asyncHandler_invokes_wrapped_once
    (h : AsyncRequestHandler) (req : Request) (res : Response)
    (next : NextFunction) :
  invocations (trace (run (asyncHandler h req res next)))
    = [(req, res, next)] /\
  effects_of Wrapped (trace (run (asyncHandler h req res next)))
    = wrapped_ops (h req res next) /\
  run (asyncHandler h req res next)
    = run (asyncHandler (fun _ _ _ => h req res next) req res next).
Proof.
  split; [| split].
  - rewrite run_asyncHandler.
    destruct (ending_of (h req res next)); simpl;
      rewrite ?invocations_app, ?invocations_effects, ?invocations_reaction;
      reflexivity.
  - rewrite run_asyncHandler.
    destruct (ending_of (h req res next)) as [e | s | v] eqn:Hend;
      cbn [trace]; rewrite ?wrapped_effects; try reflexivity.
    unfold wrapped_ops. rewrite (later_ops_threw _ _ Hend), app_nil_r.
    change (Invoke req res next
              :: map (Effect Wrapped) (sync_ops (h req res next)))
      with ([Invoke req res next]
              ++ map (Effect Wrapped) (sync_ops (h req res next))).
    now rewrite effects_of_app, effects_of_same.
  - now rewrite !run_asyncHandler.
Qed.

(** ** ApiResponse *)

Lemma lt_of_Z (a b : Z) : Js.lt (Js.of_Z a) (Js.of_Z b) = (a <? b).
Proof.
  unfold Js.lt, Js.of_Z, Js.Qltb, inject_Z. simpl.
  now rewrite !Z.mul_1_r.
Qed.

(** C4.  Whatever is passed to the constructor, [success] is the outcome of
    the comparison [statusCode < 400]; for a whole status code that is the
    comparison of integers; 201 gives [true] and 404 gives [false]. *)
Theorem ApiResponse_success_is_below_400
    (T : Type) (statusCode : Js.number) (data : T) (message : option string) :
  ApiResponse.success (ApiResponse.new statusCode data message)
    = Js.lt statusCode (Js.of_Z 400) /\
  (forall z : Z,
     ApiResponse.success (ApiResponse.new (Js.of_Z z) data message)
       = (z <? 400)) /\
  ApiResponse.success (ApiResponse.new (Js.of_Z 201) data message) = true /\
  ApiResponse.success (ApiResponse.new (Js.of_Z 404) data message) = false.
Proof.
  repeat split.
  intros z. unfold ApiResponse.new. cbn [ApiResponse.success].
  apply lt_of_Z.
Qed.

(** ** ApiError *)





(** ** Controllers and routes *)

Lemma route_paths :
  split_path "/api/v1/users/" = ["api"; "v1"; "users"] /\
  split_path "/api/v1/users" = ["api"; "v1"; "users"] /\
  pattern "/" = [] /\
  pattern "/:id" = [Param "id"].
Proof. repeat split. Qed.

(** C6.  A POST request to /api/v1/users/, whatever its parameters, body and
    query, is handled by [createUser]; status 201 and the fixed record go on
    the wire, and nothing else is done to the response. *)
Theorem createUser_responds_201_with_fixed_record
    (ps : list (string * string)) (b : value) (q : list (string * value))
    (res : Response) (next : NextFunction) :
  let req := mkRequest POST (split_path "/api/v1/users/") ps b q in
  dispatch app req res next = Some (run (createUser (with_params req []) res next)) /\
  option_map (responded res) (dispatch app req res next)
    = Some (Some (201, anson)) /\
  option_map (fun o => effects_of Wrapped (trace o)) (dispatch app req res next)
    = Some [Status res 201; Send res anson] /\
  option_map (fun o => effects_of Adapter (trace o)) (dispatch app req res next)
    = Some [].
Proof.
  cbv zeta. repeat split.
  unfold responded. simpl. now rewrite !Nat.eqb_refl.
Qed.

(** C7.  A GET request to /api/v1/users/ is handled by [getUsers]; status
    200 and the empty list go on the wire. *)
Theorem getUsers_responds_200_with_empty_list
    (ps : list (string * string)) (b : value) (q : list (string * value))
    (res : Response) (next : NextFunction) :
  let req := mkRequest GET (split_path "/api/v1/users/") ps b q in
  dispatch app req res next = Some (run (getUsers (with_params req []) res next)) /\
  option_map (responded res) (dispatch app req res next)
    = Some (Some (200, VArray [])) /\
  option_map (fun o => effects_of Wrapped (trace o)) (dispatch app req res next)
    = Some [Send res (VArray [])].
Proof.
  cbv zeta. repeat split.
  unfold responded. simpl. now rewrite !Nat.eqb_refl.
Qed.

Lemma getUserById_route (id : string) (ps : list (string * string))
    (b : value) (q : list (string * value))
    (res : Response) (next : NextFunction) :
  id <> "" ->
  dispatch app (mkRequest GET (split_path "/api/v1/users" ++ [id]) ps b q)
           res next
  = Some (run (getUserById
                 (mkRequest GET (split_path "/api/v1/users" ++ [id])
                            [("id", id)] b q) res next)).
Proof.
  intros Hid. destruct id as [| c id]; [congruence |]. reflexivity.
Qed.

Lemma getUserById_sends_empty_object (req : Request) (res : Response)
    (next : NextFunction) :
  responded res (run (getUserById req res next)) = Some (200, VObject []).
Proof. unfold responded. simpl. now rewrite Nat.eqb_refl. Qed.

(** C8.  For every identifier in the path, a GET request to
    /api/v1/users/:id is handled by [getUserById] with that identifier as
    [req.params.id]; status 200 and the empty object go on the wire, and the
    response is the same for any two identifiers. *)
Theorem getUserById_responds_200_with_empty_object
    (id id' : string) (ps : list (string * string)) (b : value)
    (q : list (string * value)) (res : Response) (next : NextFunction) :
  id <> "" -> id' <> "" ->
  let at_id i :=
    dispatch app (mkRequest GET (split_path "/api/v1/users" ++ [i]) ps b q)
             res next in
  at_id id
    = Some (run (getUserById
                   (mkRequest GET (split_path "/api/v1/users" ++ [id])
                              [("id", id)] b q) res next)) /\
  option_map (responded res) (at_id id) = Some (Some (200, VObject [])) /\
  option_map (responded res) (at_id id)
    = option_map (responded res) (at_id id').
Proof.
  intros Hid Hid'. cbv beta zeta.
  rewrite !getUserById_route by assumption.
  cbn [option_map]. rewrite !getUserById_sends_empty_object.
  auto.
Qed.

Lemma getUserById_responds_200_with_empty_object_witness :
  "42" <> "" /\ "anson" <> "" /\
  option_map (responded 1%nat)
    (dispatch app (mkRequest GET (split_path "/api/v1/users" ++ ["42"])
                             [] VUndefined []) 1%nat 2%nat)
  = Some (Some (200, VObject [])).
Proof.
  split; [discriminate | split; [discriminate |]].
  exact (proj1 (proj2 (getUserById_responds_200_with_empty_object
           "42" "anson" [] VUndefined [] 1%nat 2%nat
           ltac:(discriminate) ltac:(discriminate)))).
Defined.

(** C9.  A call of [loginUser] writes no response: neither the wrapped
    function nor the adapter performs any effect, the response object is in
    the state it was in before, nothing has gone on the wire, the call
    returns, and the promise of the wrapped function resolves. *)
Theorem loginUser_writes_no_response
    (req : Request) (res : Response) (next : NextFunction)
    (st : ResponseState) :
  trace (run (loginUser req res next)) = [Invoke req res next] /\
  effects_of Wrapped (trace (run (loginUser req res next))) = [] /\
  effects_of Adapter (trace (run (loginUser req res next))) = [] /\
  response_after res st (trace (run (loginUser req res next))) = st /\
  responded res (run (loginUser req res next)) = None /\
  completion (run (loginUser req res next)) = Ok VUndefined /\
  settled (run (loginUser req res next))
    = [Fulfilled VUndefined; Fulfilled VUndefined] /\
  unhandled (run (loginUser req res next)) = [].
Proof. repeat split. Qed.

(** ** Worked examples *)

(** Without the adapter the rejection of an [async] handler is handled by
    nobody. *)
Example unadapted_rejection_is_unhandled :
  unhandled (run (_ <- call async_throws sample_request 1%nat 2%nat ;;
                  ret VUndefined)) = [boom] /\
  unhandled (run (asyncHandler async_throws sample_request 1%nat 2%nat)) = [].
Proof. split; reflexivity. Qed.

(** A handler that writes, suspends and then fails: the write stays in the
    trace, the adapter adds the call of [next] after it. *)
Example sends_then_fails_trace :
  trace (run (asyncHandler sends_then_fails sample_request 1%nat 2%nat))
  = [ Invoke sample_request 1%nat 2%nat;
      Effect Wrapped (Send 1%nat (VString "partial"));
      Effect Adapter (Next 2%nat boom) ] /\
  responded 1%nat
    (run (asyncHandler sends_then_fails sample_request 1%nat 2%nat))
  = Some (200, VString "partial").
Proof. split; reflexivity. Qed.

(** [loginUser] is exported by the controller but no route leads to it. *)
Example login_is_not_routed :
  dispatch app (mkRequest POST (split_path "/api/v1/users/login")
                          [] VUndefined []) 1%nat 2%nat = None.
Proof. reflexivity. Qed.

(** * Further properties *)

(** ** asyncHandler, for every wrapped handler *)

(** X1.  The adapter calls [next] if and only if the promise of the
    wrapped handler rejects, and then with the rejection reason: a fulfilled or
    forever pending promise, a plain return value and an exception thrown on
    the stack all lead to no effect of the adapter. *)
Theorem asyncHandler_calls_next_iff_rejected
    (h : AsyncRequestHandler) (req : Request) (res : Response)
    (next : NextFunction) :
  effects_of Adapter (trace (run (asyncHandler h req res next)))
  = match ending_of (h req res next) with
    | GavePromise (RejectedWith e) => [Next next e]
    | _ => []
    end.
Proof.
  rewrite run_asyncHandler, resolved_promise_settles.
  destruct (ending_of (h req res next)) as [e | s | v] eqn:Hend.
  - cbn [trace].
    change (Invoke req res next
              :: map (Effect Wrapped) (sync_ops (h req res next)))
      with ([Invoke req res next]
              ++ map (Effect Wrapped) (sync_ops (h req res next))).
    now rewrite effects_of_app, effects_of_other.
  - cbn [trace]. rewrite adapter_effects. destruct s; reflexivity.
  - cbn [trace]. rewrite adapter_effects. reflexivity.
Qed.

(** X2.  The call of an adapted handler ends with an exception exactly when the
    wrapped handler throws while it is on the stack, and then with that
    exception; otherwise it returns [undefined], also when the promise is
    rejected later. *)
Theorem asyncHandler_completion
    (h : AsyncRequestHandler) (req : Request) (res : Response)
    (next : NextFunction) :
  completion (run (asyncHandler h req res next))
  = match ending_of (h req res next) with
    | Threw e => Exn e
    | GavePromise _ | GaveValue _ => Ok VUndefined
    end.
Proof.
  rewrite run_asyncHandler.
  destruct (ending_of (h req res next)); reflexivity.
Qed.

(** What [exec] does to a world. *)
Lemma exec_world (who : origin) (a : activation op) (w : world) :
  exec who a w =
  match ending_of a with
  | Threw e =>
      ({| log := log w ++ map (Effect who) (sync_ops a);
          table := table w |}, Exn e)
  | GavePromise _ =>
      ({| log := log w ++ map (Effect who) (sync_ops a);
          table := table w
                   ++ [Running (relabel (Effect who) (resolved_promise a))] |},
       Ok (Promised (List.length (table w))))
  | GaveValue v =>
      ({| log := log w ++ map (Effect who) (sync_ops a);
          table := table w |}, Ok (Plain v))
  end.
Proof.
  revert w.
  induction a as [x k IH | e | p | v]; intros w.
  - change (exec who (Do x k) w)
      with (exec who k {| log := log w ++ [Effect who x];
                          table := table w |}).
    rewrite IH. simpl.
    destruct (ending_of k); rewrite <- app_assoc; reflexivity.
  - simpl. unfold throw. now rewrite app_nil_r; destruct w.
  - simpl. unfold bind, alloc, ret. simpl. now rewrite app_nil_r.
  - simpl. unfold ret. now rewrite app_nil_r; destruct w.
Qed.

(** X3.  An adapted handler never leaves a rejection unhandled, whatever the
    wrapped handler does; the same handler called without the adapter leaves
    one exactly when its promise rejects. *)
Theorem asyncHandler_leaves_no_unhandled_rejection
    (h : AsyncRequestHandler) (req : Request) (res : Response)
    (next : NextFunction) :
  unhandled (run (asyncHandler h req res next)) = [] /\
  unhandled (run (_ <- call h req res next ;; ret VUndefined))
  = match ending_of (h req res next) with
    | GavePromise (RejectedWith e) => [e]
    | _ => []
    end.
Proof.
  split.
  - rewrite run_asyncHandler.
    destruct (ending_of (h req res next)); reflexivity.
  - unfold run.
    change ((_ <- call h req res next ;; ret VUndefined) empty_world)
      with ((_ <- exec Wrapped (h req res next) ;; ret VUndefined)
              {| log := [Invoke req res next]; table := [] |}).
    unfold bind at 1. rewrite exec_world.
    pose proof (resolved_promise_settles (h req res next)) as Hs.
    destruct (ending_of (h req res next)) as [e | s | v]; simpl.
    + reflexivity.
    + rewrite settles_relabel, Hs. destruct s; reflexivity.
    + reflexivity.
Qed.

(** *** The response object across an adapted call *)

Lemma response_after_app (res : Response) (st : ResponseState)
    (t u : list event) :
  response_after res st (t ++ u)
  = response_after res (response_after res st t) u.
Proof. unfold response_after. apply fold_left_app. Qed.

Lemma response_after_effects (res : Response) (who : origin) (l : list op)
    (st : ResponseState) :
  response_after res st (map (Effect who) l) = fold_left (apply_op res) l st.
Proof.
  revert st. induction l as [| o l IH]; intros st; [reflexivity |].
  simpl. apply IH.
Qed.

Lemma response_after_reaction (res : Response) (st : ResponseState)
    (next : NextFunction) (s : settlement) :
  response_after res st (reaction next s) = st.
Proof. destruct s; reflexivity. Qed.

Lemma response_after_adapted_trace (res' : Response) (st : ResponseState)
    (req : Request) (res : Response) (next : NextFunction) (l : list op)
    (s : settlement) :
  response_after res' st
    (Invoke req res next :: map (Effect Wrapped) l ++ reaction next s)
  = fold_left (apply_op res') l st.
Proof.
  change (Invoke req res next :: map (Effect Wrapped) l ++ reaction next s)
    with ([Invoke req res next] ++ map (Effect Wrapped) l ++ reaction next s).
  rewrite !response_after_app, response_after_reaction.
  apply response_after_effects.
Qed.

(** X4.  The adapter never touches a response object: the state of any response
    after an adapted call is the state the effects of the wrapped handler
    alone lead to, from any starting state and however the call ends. *)
Theorem asyncHandler_leaves_response_to_wrapped
    (h : AsyncRequestHandler) (req : Request) (res : Response)
    (next : NextFunction) (res' : Response) (st : ResponseState) :
  response_after res' st (trace (run (asyncHandler h req res next)))
  = fold_left (apply_op res') (wrapped_ops (h req res next)) st.
Proof.
  rewrite run_asyncHandler.
  destruct (ending_of (h req res next)) as [e | s | v] eqn:Hend; cbn [trace].
  - unfold wrapped_ops. rewrite (later_ops_threw _ _ Hend), app_nil_r.
    change (Invoke req res next
              :: map (Effect Wrapped) (sync_ops (h req res next)))
      with ([Invoke req res next]
              ++ map (Effect Wrapped) (sync_ops (h req res next))).
    rewrite response_after_app. apply response_after_effects.
  - apply response_after_adapted_trace.
  - apply response_after_adapted_trace.
Qed.

Lemma sent_stays (res : Response) (ops : list op) (st : ResponseState) :
  sent st <> None -> sent (fold_left (apply_op res) ops st) <> None.
Proof.
  revert st. induction ops as [| o ops IH]; intros st Hsent; [exact Hsent |].
  simpl. apply IH.
  destruct o as [r c | r b | n a]; simpl; try exact Hsent.
  - destruct (Nat.eqb r res); simpl; exact Hsent.
  - destruct (Nat.eqb r res); [| exact Hsent].
    destruct (sent st) eqn:Hs; simpl; congruence.
Qed.

Lemma sent_after_send (res : Response) (b : value) (ops : list op)
    (st : ResponseState) :
  In (Send res b) ops -> sent (fold_left (apply_op res) ops st) <> None.
Proof.
  revert st. induction ops as [| o ops IH]; intros st Hin; [contradiction |].
  destruct Hin as [-> | Hin].
  - simpl. apply sent_stays. rewrite Nat.eqb_refl.
    destruct (sent st) eqn:Hs; simpl; congruence.
  - simpl. now apply IH.
Qed.

(** X5.  A wrapped handler that sends a response and fails afterwards: the
    response is on the wire and the adapter still calls [next] with the
    failure, so the error handler behind [next] meets a response that has
    been sent already. *)
Theorem asyncHandler_write_then_fail
    (h : AsyncRequestHandler) (req : Request) (res : Response)
    (next : NextFunction) (E b : value) :
  ending_of (h req res next) = GavePromise (RejectedWith E) ->
  In (Send res b) (wrapped_ops (h req res next)) ->
  responded res (run (asyncHandler h req res next)) <> None /\
  next_calls Adapter (trace (run (asyncHandler h req res next)))
    = [Next next E].
Proof.
  intros Hend Hin.
  rewrite (run_asyncHandler_promise h req res next _ Hend).
  split.
  - unfold responded. cbn [trace].
    rewrite response_after_adapted_trace.
    now apply sent_after_send with (b := b).
  - unfold next_calls. cbn [trace]. rewrite adapter_effects. reflexivity.
Qed.

Lemma asyncHandler_write_then_fail_witness :
  ending_of (sends_then_fails sample_request 1%nat 2%nat)
    = GavePromise (RejectedWith boom) /\
  In (Send 1%nat (VString "partial"))
     (wrapped_ops (sends_then_fails sample_request 1%nat 2%nat)) /\
  responded 1%nat
    (run (asyncHandler sends_then_fails sample_request 1%nat 2%nat))
    <> None.
Proof.
  split; [reflexivity | split; [left; reflexivity |]].
  exact (proj1 (asyncHandler_write_then_fail
                  sends_then_fails sample_request 1%nat 2%nat boom
                  (VString "partial") eq_refl (or_introl eq_refl))).
Defined.

(** ** The route table *)



(** X8.  A controller acts on the response it was handed and on no other:
    the state of any other response object is the same after the call as
    before it. *)
Theorem controllers_write_only_their_response
    (req : Request) (res : Response) (next : NextFunction)
    (res' : Response) (st : ResponseState) :
  res' <> res ->
  response_after res' st (trace (run (getUsers req res next))) = st /\
  response_after res' st (trace (run (getUserById req res next))) = st /\
  response_after res' st (trace (run (createUser req res next))) = st /\
  response_after res' st (trace (run (loginUser req res next))) = st.
Proof.
  intros Hne.
  assert (Heq : Nat.eqb res res' = false)
    by (apply Nat.eqb_neq; congruence).
  repeat split; simpl; rewrite ?Heq; reflexivity.
Qed.

Lemma controllers_write_only_their_response_witness :
  other_response <> 1%nat /\
  response_after other_response fresh_response
    (trace (run (createUser sample_request 1%nat 2%nat))) = fresh_response.
Proof.
  split.
  - discriminate.
  - exact (proj1 (proj2 (proj2 (controllers_write_only_their_response
             sample_request 1%nat 2%nat other_response fresh_response
             ltac:(discriminate))))).
Defined.

(** ** ApiError and ApiResponse: defaults and edge values *)

(** X9.  The constructor of [ApiError] stores a stack only when a non-empty
    one is passed: an empty string counts as no stack at all and the trace is
    captured, as when the argument is omitted.  The message is different: an
    empty message is kept, only an omitted one gets the default. *)
Theorem ApiError_empty_stack_is_captured
    (statusCode : Js.number) (message stack : option string) :
  (forall s : string,
     ApiError.stack (ApiError.new statusCode message stack)
       = ApiError.Supplied s
     <-> stack = Some s /\ s <> "") /\
  (ApiError.stack (ApiError.new statusCode message stack) = ApiError.Captured
     <-> stack = None \/ stack = Some "") /\
  ApiError.message (ApiError.new statusCode (Some "") stack) = "" /\
  ApiError.message (ApiError.new statusCode None stack)
    = "Something went wrong".
Proof.
  split; [| split; [| split; reflexivity]].
  - intros s. split.
    + destruct stack as [[| c st] |]; simpl; intros H; try discriminate.
      inversion H. split; [reflexivity | discriminate].
    + intros [-> Hne]. destruct s as [| c s]; [congruence | reflexivity].
  - split.
    + destruct stack as [[| c st] |]; simpl; intros H; try discriminate;
        auto.
    + intros [-> | ->]; reflexivity.
Qed.

Lemma Qltb_lt (a b : Q) : Js.Qltb a b = true <-> (a < b)%Q.
Proof. unfold Js.Qltb, Qlt. apply Z.ltb_lt. Qed.

(** X10.  [success] of an [ApiResponse] follows the order of numbers: for a
    finite status code it is [true] exactly below 400, fractions included,
    so it can only turn from [true] to [false] as the code grows; there is
    no lower bound, and for the special values it is [false] on [NaN] and
    [Infinity] and [true] on [-Infinity]. *)
Theorem ApiResponse_success_follows_order
    (T : Type) (data : T) (message : option string) :
  (forall q : Q,
     ApiResponse.success (ApiResponse.new (Js.Finite q) data message) = true
     <-> (q < 400)%Q) /\
  (forall a b : Q,
     (a <= b)%Q ->
     ApiResponse.success (ApiResponse.new (Js.Finite b) data message) = true ->
     ApiResponse.success (ApiResponse.new (Js.Finite a) data message) = true) /\
  ApiResponse.success (ApiResponse.new Js.NaN data message) = false /\
  ApiResponse.success (ApiResponse.new Js.Infinity data message) = false /\
  ApiResponse.success (ApiResponse.new Js.NegInfinity data message) = true.
Proof.
  assert (Hiff : forall q : Q,
            ApiResponse.success (ApiResponse.new (Js.Finite q) data message)
              = true <-> (q < 400)%Q).
  { intros q. unfold ApiResponse.new. cbn [ApiResponse.success].
    unfold Js.lt, Js.of_Z. apply Qltb_lt. }
  split; [exact Hiff |].
  split; [| repeat split].
  intros a b Hab Hb. apply Hiff. apply Hiff in Hb.
  now apply Qle_lt_trans with b.
Qed.

(** ** Start-up (src/index.ts) *)

(** X11.  The server listens on [PORT] when the variable is set and not
    empty, and on 8000 otherwise; the start-up message prints the variable
    itself, so when the fallback is used the message does not name the port:
    it ends in [undefined], or in nothing, and never in 8000. *)
Theorem banner_names_port_only_when_PORT_is_set (env : Bootstrap.Env) :
  match Bootstrap.listen_port env with
  | Bootstrap.FromEnv s =>
      Bootstrap.PORT env = Some s /\ s <> "" /\
      Bootstrap.banner env = ("Server: http://localhost:" ++ s)%string
  | Bootstrap.Fallback n =>
      n = 8000 /\
      Bootstrap.banner env <> "Server: http://localhost:8000" /\
      ((Bootstrap.PORT env = None /\
        Bootstrap.banner env = "Server: http://localhost:undefined") \/
       (Bootstrap.PORT env = Some "" /\
        Bootstrap.banner env = "Server: http://localhost:"))
  end.
Proof.
  destruct env as [[[| c s] |]]; unfold Bootstrap.listen_port,
    Bootstrap.banner; simpl.
  - repeat split; [discriminate | auto].
  - repeat split. discriminate.
  - repeat split; [discriminate | auto].
Qed.

(** X12.  With the [connectDB] of the repository, an empty [async] function,
    start-up registers the error listener and calls [app.listen] exactly
    once, on the port chosen above; the process exits, with status 1, if and
    only if [app.listen] throws, and no exception leaves the module. *)
Theorem main_exits_iff_listen_throws
    (env : Bootstrap.Env) (l : Bootstrap.listen_outcome) :
  filter Bootstrap.is_listen (Bootstrap.effects (Bootstrap.main env l))
    = [Bootstrap.Listen (Bootstrap.listen_port env)] /\
  (forall c : Z,
     In (Bootstrap.Exit c) (Bootstrap.effects (Bootstrap.main env l))
     <-> c = 1 /\ exists e : value, l = Bootstrap.ListenThrows e) /\
  Bootstrap.effects (Bootstrap.main env Bootstrap.Listening)
    = [Bootstrap.DotenvConfig "./.env"; Bootstrap.OnError;
       Bootstrap.Listen (Bootstrap.listen_port env);
       Bootstrap.ConsoleLog [VString (Bootstrap.banner env)]] /\
  Bootstrap.uncaught (Bootstrap.main env l) = None.
Proof.
  destruct l as [| e]; (split; [reflexivity |]);
    (split; [| split; reflexivity]).
  - intros c. simpl. split.
    + intros [H | [H | [H | [H | []]]]]; discriminate.
    + intros [_ [e He]]. discriminate.
  - intros c. simpl. split.
    + intros [H | [H | [H | [H | [H | []]]]]]; try discriminate.
      inversion H. split; [reflexivity | now exists e].
    + intros [-> _]. auto 6.
Qed.

(** X13.  Whatever [connectDB] is, if the promise it returns rejects, the
    failure is logged and the process exits with status 1: the error
    listener is not registered and [app.listen] is not called, whatever it
    would have done. *)
Theorem start_exits_when_connection_fails
    (connect : activation Bootstrap.effect) (env : Bootstrap.Env)
    (l : Bootstrap.listen_outcome) (e : value) :
  ending_of connect = GavePromise (RejectedWith e) ->
  Bootstrap.effects (Bootstrap.start connect env l)
    = Bootstrap.DotenvConfig "./.env"
        :: (sync_ops connect ++ later_ops connect)
        ++ [Bootstrap.ConsoleLog [VString "ERR: "; e]; Bootstrap.Exit 1] /\
  Bootstrap.uncaught (Bootstrap.start connect env l) = None /\
  Bootstrap.chain (Bootstrap.start connect env l) = Fulfilled VUndefined.
Proof.
  intros Hend. unfold Bootstrap.start. rewrite Hend. simpl.
  repeat split.
Qed.

Lemma start_exits_when_connection_fails_witness :
  ending_of Bootstrap.failing_connect
    = GavePromise (RejectedWith (VError "no database")) /\
  Bootstrap.effects
    (Bootstrap.start Bootstrap.failing_connect (Bootstrap.mkEnv None)
                     Bootstrap.Listening)
  = [Bootstrap.DotenvConfig "./.env";
     Bootstrap.ConsoleLog [VString "connecting"];
     Bootstrap.ConsoleLog [VString "ERR: "; VError "no database"];
     Bootstrap.Exit 1].
Proof.
  split.
  - reflexivity.
  - exact (proj1 (start_exits_when_connection_fails
                    Bootstrap.failing_connect (Bootstrap.mkEnv None)
                    Bootstrap.Listening (VError "no database") eq_refl)).
Defined.

(** ** The two views of a reaction agree *)

(** The reaction the event loop runs for a [catch] cell is the one
    [catch_reaction] describes. *)
Lemma settle_cell_caught (done : list settlement) (src : promise)
    (onRejected : value -> activation event) (s : settlement) :
  nth_error done src = Some s ->
  settle_cell done (Caught src onRejected) = catch_reaction s onRejected.
Proof.
  intros Hs. unfold settle_cell, catch_reaction, settled_by. rewrite Hs.
  destruct s; reflexivity.
Qed.
